(** * threejs-china-data: adcode resolution and series reshaping

    A shallow embedding of [src/utils/adcodeMap.ts] (the region table and its
    four lookup functions) and of the reshaping loop of [dblClickFn] in
    [src/App.tsx].

    Conventions.
    - A JavaScript string is a [string]: the bytes of its UTF-8 encoding.
      ASCII characters are single bytes, so [/^\d{6}$/] and the decimal
      syntax read by [parseFloat] look at the same characters in both views.
    - A JavaScript object used as a dictionary is its list of own properties
      in creation order, with pairwise distinct keys.
    - The type [number] (IEEE doubles) and the two conversions between
      numbers and text that depend on binary rounding stay parameters of the
      development. *)

From Stdlib Require Import String Ascii List Bool Arith NArith Lia Permutation.
Import ListNotations.
Open Scope string_scope.

(** ** Numbers carried as text

    One reading of the numeric parameters, used to run the definitions on
    concrete inputs: a number is kept as a decimal text that denotes it (for
    a number received as input, the text [Number::toString] gives it; for a
    parsed number, the literal it was read from).  Equal texts denote equal
    numbers; nothing is said about different texts. *)

Inductive TextNumber : Type :=
| TNaN
| TNum (text : string).

Definition TextNumber_toString (n : TextNumber) : string :=
  match n with
  | TNaN => "NaN"
  | TNum text => text
  end.

Definition TextNumber_value (literal : string) : TextNumber := TNum literal.

(** ** Characters and the pattern [/^\d{6}$/] *)

(** [\d]: one of the ten ASCII digits. *)
Definition is_digit (c : ascii) : bool :=
  let n := nat_of_ascii c in ((48 <=? n) && (n <=? 57))%nat.

Fixpoint all_digits (s : string) : bool :=
  match s with
  | EmptyString => true
  | String c rest => is_digit c && all_digits rest
  end.

(** [/^\d{6}$/.test(s)]: the whole string is exactly six digits (without the
    [m] flag, [$] only matches at the very end of the input). *)
Definition six_digit_pattern (s : string) : bool :=
  (String.length s =? 6)%nat && all_digits s.

(** ** The text read by [parseFloat]

    [parseFloat] skips leading white space and line terminators, then reads
    the longest prefix that has the syntax of a signed decimal literal. *)

Fixpoint strip_prefix (p s : string) : option string :=
  match p, s with
  | EmptyString, _ => Some s
  | String a p', String b s' => if Ascii.eqb a b then strip_prefix p' s' else None
  | String _ _, EmptyString => None
  end.

Definition utf8 (bytes : list nat) : string :=
  fold_right (fun b s => String (ascii_of_nat b) s) EmptyString bytes.

(** White space and line terminators: TAB, LF, VT, FF, CR, SP, U+00A0,
    U+1680, U+2000 to U+200A, U+2028, U+2029, U+202F, U+205F, U+3000 and
    U+FEFF. *)
Definition StrWhiteSpaceChar : list string :=
  map utf8
    [ [9]; [10]; [11]; [12]; [13]; [32]; [194; 160]; [225; 154; 128];
      [226; 128; 128]; [226; 128; 129]; [226; 128; 130]; [226; 128; 131];
      [226; 128; 132]; [226; 128; 133]; [226; 128; 134]; [226; 128; 135];
      [226; 128; 136]; [226; 128; 137]; [226; 128; 138]; [226; 128; 168];
      [226; 128; 169]; [226; 128; 175]; [226; 129; 159]; [227; 128; 128];
      [239; 187; 191] ].

Fixpoint strip_any (prefixes : list string) (s : string) : option string :=
  match prefixes with
  | [] => None
  | p :: others =>
      match strip_prefix p s with
      | Some rest => Some rest
      | None => strip_any others s
      end
  end.

Fixpoint trim_start (fuel : nat) (s : string) : string :=
  match fuel with
  | O => s
  | S fuel' =>
      match strip_any StrWhiteSpaceChar s with
      | Some rest => trim_start fuel' rest
      | None => s
      end
  end.

(** [TrimString(s, start)]; every step removes at least one byte. *)
Definition TrimStart (s : string) : string := trim_start (String.length s) s.

(** The digits at the head of [s], and what follows them. *)
Fixpoint span_digits (s : string) : string * string :=
  match s with
  | EmptyString => ("", "")
  | String c rest =>
      if is_digit c
      then let (digits, tail) := span_digits rest in (String c digits, tail)
      else ("", s)
  end.

Definition span_sign (s : string) : string * string :=
  match s with
  | String c rest =>
      if Ascii.eqb c "+"%char || Ascii.eqb c "-"%char
      then (String c "", rest)
      else ("", s)
  | EmptyString => ("", "")
  end.

(** The exponent part at the head of [s], or nothing: [e] or [E], an
    optional sign and at least one digit. *)
Definition exponent_part (s : string) : string :=
  match s with
  | String c rest =>
      if Ascii.eqb c "e"%char || Ascii.eqb c "E"%char then
        let (sign, after_sign) := span_sign rest in
        let (digits, _) := span_digits after_sign in
        if String.eqb digits "" then "" else String c (sign ++ digits)
      else ""
  | EmptyString => ""
  end.

(** Longest prefix that is [Infinity], [digits], [digits.], [digits.digits]
    or [.digits], the last four with an optional exponent part. *)
Definition unsigned_decimal_prefix (s : string) : option string :=
  match strip_prefix "Infinity" s with
  | Some _ => Some "Infinity"
  | None =>
      let (int_digits, after_int) := span_digits s in
      match after_int with
      | String "."%char after_dot =>
          let (frac_digits, after_frac) := span_digits after_dot in
          if String.eqb int_digits "" && String.eqb frac_digits "" then None
          else Some (int_digits ++ "." ++ frac_digits ++ exponent_part after_frac)
      | _ =>
          if String.eqb int_digits "" then None
          else Some (int_digits ++ exponent_part after_int)
      end
  end.

(** Longest prefix with the syntax of a signed decimal literal
    ([StrDecimalLiteral]), if there is one. *)
Definition decimal_prefix (s : string) : option string :=
  let (sign, unsigned) := span_sign s in
  match unsigned_decimal_prefix unsigned with
  | Some literal => Some (sign ++ literal)
  | None => None
  end.

(** ** Objects as ordered property lists *)

Definition object (A : Type) : Type := list (string * A).

Fixpoint own_property {A : Type} (o : object A) (key : string) : option A :=
  match o with
  | [] => None
  | (k, v) :: rest => if String.eqb k key then Some v else own_property rest key
  end.

(** The properties every object literal inherits from [Object.prototype]. *)
Definition Object_prototype_keys : list string :=
  [ "constructor"; "__defineGetter__"; "__defineSetter__"; "hasOwnProperty";
    "__lookupGetter__"; "__lookupSetter__"; "isPrototypeOf";
    "propertyIsEnumerable"; "toString"; "valueOf"; "__proto__";
    "toLocaleString" ].

Definition string_in (s : string) (l : list string) : bool :=
  existsb (String.eqb s) l.

(** What a property read can yield on a dictionary of strings: one of its
    own strings, or a built-in found on the prototype. *)
Inductive jsval : Type :=
| VString (s : string)
| VBuiltin (name : string).

(** [o[key]]: own properties first, then the prototype; [None] is
    [undefined]. *)
Definition Get (o : object string) (key : string) : option jsval :=
  match own_property o key with
  | Some s => Some (VString s)
  | None =>
      if string_in key Object_prototype_keys then Some (VBuiltin key) else None
  end.

(** [key in o]: own or inherited. *)
Definition HasProperty {A : Type} (o : object A) (key : string) : bool :=
  match own_property o key with
  | Some _ => true
  | None => string_in key Object_prototype_keys
  end.

(** *** Enumeration order

    [Object.keys], [Object.entries] and [Object.values] list the array-index
    keys first, in ascending numeric order, and then the other keys in
    creation order. *)

Fixpoint decimal_value (s : string) (acc : N) : option N :=
  match s with
  | EmptyString => Some acc
  | String c rest =>
      if is_digit c
      then decimal_value rest (10 * acc + (N_of_ascii c - 48))%N
      else None
  end.

(** A key is an array index when it is the canonical decimal form of an
    integer between 0 and 2^32 - 2. *)
Definition array_index (key : string) : option N :=
  match key with
  | EmptyString => None
  | String c rest =>
      if Ascii.eqb c "0"%char
      then (if String.eqb rest "" then Some 0%N else None)
      else match decimal_value key 0 with
           | Some n => if (n <=? 4294967294)%N then Some n else None
           | None => None
           end
  end.

Fixpoint insert_by_index {A : Type} (i : N) (e : string * A)
    (sorted : list (N * (string * A))) : list (N * (string * A)) :=
  match sorted with
  | [] => [(i, e)]
  | (j, e') :: rest =>
      if (i <? j)%N then (i, e) :: sorted
      else (j, e') :: insert_by_index i e rest
  end.

(** The array-index properties of [o], ascending. *)
Fixpoint index_properties {A : Type} (o : object A) : list (N * (string * A)) :=
  match o with
  | [] => []
  | (k, v) :: rest =>
      match array_index k with
      | Some i => insert_by_index i (k, v) (index_properties rest)
      | None => index_properties rest
      end
  end.

(** The other properties of [o], in creation order. *)
Definition named_properties {A : Type} (o : object A) : list (string * A) :=
  filter (fun e => match array_index (fst e) with Some _ => false | None => true end) o.

Definition Object_entries {A : Type} (o : object A) : list (string * A) :=
  map snd (index_properties o) ++ named_properties o.

Definition Object_keys {A : Type} (o : object A) : list string :=
  map fst (Object_entries o).

Definition Object_values {A : Type} (o : object A) : list A :=
  map snd (Object_entries o).

(** ** The region table ([ADCODE_TO_PROVINCE]) *)

Definition ADCODE_TO_PROVINCE : object string :=
  [ ("110000", "北京市");
    ("120000", "天津市");
    ("130000", "河北省");
    ("140000", "山西省");
    ("150000", "内蒙古自治区");
    ("210000", "辽宁省");
    ("220000", "吉林省");
    ("230000", "黑龙江省");
    ("310000", "上海市");
    ("320000", "江苏省");
    ("330000", "浙江省");
    ("340000", "安徽省");
    ("350000", "福建省");
    ("360000", "江西省");
    ("370000", "山东省");
    ("410000", "河南省");
    ("420000", "湖北省");
    ("430000", "湖南省");
    ("440000", "广东省");
    ("450000", "广西壮族自治区");
    ("460000", "海南省");
    ("500000", "重庆市");
    ("510000", "四川省");
    ("520000", "贵州省");
    ("530000", "云南省");
    ("540000", "西藏自治区");
    ("610000", "陕西省");
    ("620000", "甘肃省");
    ("630000", "青海省");
    ("640000", "宁夏回族自治区");
    ("650000", "新疆维吾尔自治区");
    ("710000", "台湾省");
    ("810000", "香港特别行政区");
    ("820000", "澳门特别行政区") ].

(** The array literal [["710000", "810000", "820000"]] of the three guards. *)
Definition special_region_codes : list string := ["710000"; "810000"; "820000"].

(** [Array.prototype.includes] on an array of strings. *)
Definition includes (l : list string) (s : string) : bool := string_in s l.

(** ** Options *)

(** [{ includeSpecialRegions?: boolean; returnDefault?: string }]; an absent
    field is [None]. *)
Record NameOptions : Type := mkNameOptions {
  includeSpecialRegions : option bool;
  returnDefault : option string
}.

(** [{ includeSpecialRegions?: boolean }]. *)
Record RegionOptions : Type := mkRegionOptions {
  regionIncludeSpecialRegions : option bool
}.

(** [x ?? y]. *)
Definition nullish {A : Type} (x : option A) (y : A) : A :=
  match x with
  | Some a => a
  | None => y
  end.

Section Program.

Set Default Proof Using "Type".

(** JavaScript numbers, with the built-ins whose results depend on binary
    rounding: [Number::toString], the value [NaN], and [StringNumericValue],
    the number denoted by a text that has the syntax of a decimal literal. *)
Variable number : Type.
Variable Number_toString : number -> string.
Variable NaN : number.
Variable StringNumericValue : string -> number.

(** ** The resolver ([src/utils/adcodeMap.ts]) *)

(** The parameter type [string | number]. *)
Inductive adcode_input : Type :=
| AdStr (s : string)
| AdNum (n : number).

(** [String(adcode)]. *)
Definition String_of (adcode : adcode_input) : string :=
  match adcode with
  | AdStr s => s
  | AdNum n => Number_toString n
  end.

(** [const { includeSpecialRegions = true, returnDefault } = options || {}]. *)
Definition name_include (options : option NameOptions) : bool :=
  match options with
  | Some o => nullish (includeSpecialRegions o) true
  | None => true
  end.

Definition name_default (options : option NameOptions) : option string :=
  match options with
  | Some o => returnDefault o
  | None => None
  end.

(** [const { includeSpecialRegions = true } = options || {}]. *)
Definition region_include (options : option RegionOptions) : bool :=
  match options with
  | Some o => nullish (regionIncludeSpecialRegions o) true
  | None => true
  end.

Definition getProvinceNameByAdcode (adcode : adcode_input)
    (options : option NameOptions) : jsval :=
  let includeSpecialRegions := name_include options in
  let returnDefault := name_default options in
  let codeStr := String_of adcode in
  if negb (six_digit_pattern codeStr) then
    VString (nullish returnDefault codeStr)
  else if negb includeSpecialRegions && includes special_region_codes codeStr then
    VString (nullish returnDefault codeStr)
  else
    let provinceName := Get ADCODE_TO_PROVINCE codeStr in
    nullish provinceName (VString (nullish returnDefault codeStr)).

Definition getAllProvinceAdcodes (options : option RegionOptions) : list string :=
  let includeSpecialRegions := region_include options in
  let adcodes := Object_keys ADCODE_TO_PROVINCE in
  if negb includeSpecialRegions then
    filter (fun code => negb (includes special_region_codes code)) adcodes
  else adcodes.

Definition getAdcodeByProvinceName (provinceName : string) : option string :=
  let entries := Object_entries ADCODE_TO_PROVINCE in
  let found := find (fun e => String.eqb (snd e) provinceName) entries in
  match found with
  | Some e => Some (fst e)
  | None => None
  end.

Definition isValidProvinceAdcode (adcode : adcode_input)
    (options : option RegionOptions) : bool :=
  let includeSpecialRegions := region_include options in
  let codeStr := String_of adcode in
  if negb (six_digit_pattern codeStr) then false
  else if negb includeSpecialRegions && includes special_region_codes codeStr then false
  else HasProperty ADCODE_TO_PROVINCE codeStr.

(** ** The reshaping loop ([src/App.tsx], [dblClickFn]) *)

(** What a component of a point can be: a JSON scalar, or [undefined] when
    the point is too short. *)
Inductive scalar : Type :=
| JUndefined
| JNull
| JBool (b : bool)
| JNumber (n : number)
| JString (s : string).

(** Modelled from the spec: the type [ApiData] is declared in
    [src/map3d/typed], which is not among the sources.  The specification
    gives the response body as a mapping from series name to a list of
    two-element arrays [[timeLabel, valueAsStringOrNumber]].  An element is
    kept here as whatever [Object.values] can be applied to without raising:
    an array of components, of any length, or an object holding them; the
    two-element arrays are one case. *)
Inductive item : Type :=
| ItemArray (elements : list scalar)
| ItemObject (properties : object scalar).

Definition ApiData : Type := object (list item).

(** Modelled from the spec: the type [chartData], from the same missing
    file, is the specification's [{ name, time, value }].  The loop declares
    [_time] as [string[]] but stores the components as it reads them, so
    [time] is a list of scalars here. *)
Record chartData : Type := mkChartData {
  name : string;
  time : list scalar;
  value : list number
}.

(** [String(x)] on a scalar. *)
Definition ToString (x : scalar) : string :=
  match x with
  | JUndefined => "undefined"
  | JNull => "null"
  | JBool true => "true"
  | JBool false => "false"
  | JNumber n => Number_toString n
  | JString s => s
  end.

Definition parseFloat (x : scalar) : number :=
  match decimal_prefix (TrimStart (ToString x)) with
  | Some literal => StringNumericValue literal
  | None => NaN
  end.

(** [Object.values(item)]. *)
Definition item_values (it : item) : list scalar :=
  match it with
  | ItemArray elements => elements
  | ItemObject properties => Object_values properties
  end.

(** [a[i]]: [undefined] past the end. *)
Definition at_index (a : list scalar) (i : nat) : scalar :=
  nth i a JUndefined.

(** [a.push(x)]. *)
Definition push {A : Type} (a : list A) (x : A) : list A := a ++ [x].

(** The body of the callback given to [value.map], on the two arrays
    [_time] and [_value] it appends to. *)
Definition visit_item (arrays : list scalar * list number) (it : item)
    : list scalar * list number :=
  let (_time, _value) := arrays in
  let _item := item_values it in
  (push _time (at_index _item 0), push _value (parseFloat (at_index _item 1))).

(** One turn of the [for ... of] loop: the series pushed for an entry. *)
Definition series_of_entry (entry : string * list item) : chartData :=
  let (key, points) := entry in
  let (_time, _value) := fold_left visit_item points ([], []) in
  {| name := key; time := _time; value := _value |}.

(** Lines 47 to 62 of [dblClickFn]: the array handed to [setChartData]. *)
Definition reshape (data : ApiData) : list chartData :=
  fold_left (fun chartDatas entry => push chartDatas (series_of_entry entry))
            (Object_entries data) [].

(** The two components the loop reads from a point. *)
Definition time_component (it : item) : scalar := at_index (item_values it) 0.
Definition value_component (it : item) : scalar := at_index (item_values it) 1.

(** The text of [x] starts, after white space, with a decimal literal. *)
Definition parses_as_number (x : scalar) : bool :=
  match decimal_prefix (TrimStart (ToString x)) with
  | Some _ => true
  | None => false
  end.

(** ** The conditions the specification names *)

(** The code is a key of the region table. *)
Definition is_table_key (codeStr : string) : bool :=
  string_in codeStr (map fst ADCODE_TO_PROVINCE).

(** The code is shut out by the special-region policy. *)
Definition excluded_by_policy (includeSpecial : bool) (codeStr : string) : bool :=
  negb includeSpecial && string_in codeStr special_region_codes.

(** The three cases in which the resolver falls back: the text is not six
    digits, or the policy shuts the code out, or the table has no such key. *)
Definition falls_back (includeSpecial : bool) (codeStr : string) : bool :=
  negb (six_digit_pattern codeStr)
  || excluded_by_policy includeSpecial codeStr
  || negb (is_table_key codeStr).

(** ** The request of [dblClickFn] ([src/App.tsx]) *)

Definition url : string := "http://121.41.14.73/api/data/".

(** The argument of [axios.get] in [dblClickFn]: [url + provinceName], with
    [provinceName] the resolver's answer under default options.  [None]
    stands for an operand that is not a string, whose text is left to the
    implementation. *)
Definition request_url (adcode : adcode_input) : option string :=
  match getProvinceNameByAdcode adcode None with
  | VString provinceName => Some (url ++ provinceName)
  | VBuiltin _ => None
  end.

(** A point cut down to its first two values. *)
Definition first_two (it : item) : item :=
  ItemArray (firstn 2 (item_values it)).

(** * Properties *)

(** ** Strings, keys and lookups *)

Lemma string_in_In (s : string) (l : list string) :
  string_in s l = true <-> In s l.
Proof.
  unfold string_in. rewrite existsb_exists. split.
  - intros [x [Hin Heq]]. apply String.eqb_eq in Heq. now subst.
  - intros Hin. exists s. split; [assumption | apply String.eqb_refl].
Qed.

Lemma string_in_false (s : string) (l : list string) :
  string_in s l = false <-> ~ In s l.
Proof.
  rewrite <- string_in_In. destruct (string_in s l); split; intros H;
    try reflexivity; try discriminate; congruence.
Qed.

Lemma own_property_Some_In {A : Type} (o : object A) (key : string) (v : A) :
  own_property o key = Some v -> In (key, v) o.
Proof.
  induction o as [| [k w] rest IH]; simpl; [discriminate |].
  destruct (String.eqb k key) eqn:E.
  - apply String.eqb_eq in E. intros [= ->]. subst. now left.
  - intros H. right. now apply IH.
Qed.

Lemma own_property_None {A : Type} (o : object A) (key : string) :
  own_property o key = None <-> ~ In key (map fst o).
Proof.
  induction o as [| [k w] rest IH]; simpl.
  - split; [intros _ [] | reflexivity].
  - destruct (String.eqb k key) eqn:E.
    + apply String.eqb_eq in E. split; [discriminate | intros H; exfalso; apply H; now left].
    + apply String.eqb_neq in E. rewrite IH. split.
      * intros H [Hk | Hin]; [now apply E | now apply H].
      * intros H Hin. apply H. now right.
Qed.

Lemma own_property_key {A : Type} (o : object A) (key : string) :
  (exists v, own_property o key = Some v) <-> In key (map fst o).
Proof.
  destruct (own_property o key) as [v |] eqn:E.
  - split; [intros _ | intros _; now exists v].
    apply own_property_Some_In in E. now apply (in_map fst) in E.
  - split; [intros [v Hv]; discriminate |].
    intros Hin. now apply own_property_None in E.
Qed.

Lemma is_table_key_own (codeStr : string) :
  is_table_key codeStr = true <->
  exists provinceName, own_property ADCODE_TO_PROVINCE codeStr = Some provinceName.
Proof.
  unfold is_table_key. rewrite string_in_In. symmetry. apply own_property_key.
Qed.

(** No name inherited from the prototype is made of six digits, so behind
    the pattern guard a read of the table only sees its own entries. *)
Lemma prototype_keys_not_codes :
  Forall (fun key => six_digit_pattern key = false) Object_prototype_keys.
Proof. repeat constructor. Qed.

Lemma six_digit_not_inherited (codeStr : string) :
  six_digit_pattern codeStr = true ->
  string_in codeStr Object_prototype_keys = false.
Proof.
  intros Hpat. apply string_in_false. intros Hin.
  pose proof (proj1 (Forall_forall _ _) prototype_keys_not_codes _ Hin) as Hno.
  simpl in Hno. congruence.
Qed.

Lemma Get_behind_guard (codeStr : string) :
  six_digit_pattern codeStr = true ->
  Get ADCODE_TO_PROVINCE codeStr =
  option_map VString (own_property ADCODE_TO_PROVINCE codeStr).
Proof.
  intros Hpat. unfold Get.
  destruct (own_property ADCODE_TO_PROVINCE codeStr); [reflexivity |].
  now rewrite (six_digit_not_inherited _ Hpat).
Qed.

Lemma HasProperty_behind_guard (codeStr : string) :
  six_digit_pattern codeStr = true ->
  HasProperty ADCODE_TO_PROVINCE codeStr = is_table_key codeStr.
Proof.
  intros Hpat. unfold HasProperty.
  destruct (own_property ADCODE_TO_PROVINCE codeStr) as [v |] eqn:E.
  - symmetry. apply is_table_key_own. now exists v.
  - rewrite (six_digit_not_inherited _ Hpat). symmetry.
    unfold is_table_key. apply string_in_false. now apply own_property_None.
Qed.

(** The table lists its keys in ascending order already: enumerating it
    gives back the order of the literal. *)
Lemma table_entries_in_definition_order :
  Object_entries ADCODE_TO_PROVINCE = ADCODE_TO_PROVINCE.
Proof. vm_compute. reflexivity. Qed.

Lemma table_keys_in_definition_order :
  Object_keys ADCODE_TO_PROVINCE = map fst ADCODE_TO_PROVINCE.
Proof. unfold Object_keys. now rewrite table_entries_in_definition_order. Qed.

Lemma table_keys_six_digits :
  Forall (fun e => six_digit_pattern (fst e) = true) ADCODE_TO_PROVINCE.
Proof. repeat constructor. Qed.

Lemma table_key_six_digits (codeStr : string) :
  In codeStr (map fst ADCODE_TO_PROVINCE) -> six_digit_pattern codeStr = true.
Proof.
  intros Hin. apply in_map_iff in Hin. destruct Hin as [e [<- He]].
  exact (proj1 (Forall_forall _ _) table_keys_six_digits e He).
Qed.

(** No name of the table could be taken for a code. *)
Lemma table_names_not_codes :
  Forall (fun e => six_digit_pattern (snd e) = false) ADCODE_TO_PROVINCE.
Proof. repeat constructor. Qed.

(** Each entry is found again from its key, and its key from its name. *)
Lemma table_entries_round_trip :
  Forall (fun e => own_property ADCODE_TO_PROVINCE (fst e) = Some (snd e)
                   /\ getAdcodeByProvinceName (snd e) = Some (fst e))
         ADCODE_TO_PROVINCE.
Proof. repeat constructor. Qed.

Lemma getProvinceNameByAdcode_unfold (adcode : adcode_input)
    (options : option NameOptions) :
  getProvinceNameByAdcode adcode options =
  if falls_back (name_include options) (String_of adcode)
  then VString (nullish (name_default options) (String_of adcode))
  else nullish (option_map VString (own_property ADCODE_TO_PROVINCE (String_of adcode)))
               (VString (nullish (name_default options) (String_of adcode))).
Proof.
  unfold getProvinceNameByAdcode, falls_back, excluded_by_policy, includes.
  destruct (six_digit_pattern (String_of adcode)) eqn:Hpat; [| reflexivity].
  change (negb true) with false. rewrite orb_false_l.
  destruct (negb (name_include options)
            && string_in (String_of adcode) special_region_codes);
    [reflexivity |].
  rewrite orb_false_l, (Get_behind_guard _ Hpat).
  destruct (is_table_key (String_of adcode)) eqn:Hkey; [reflexivity |].
  destruct (own_property ADCODE_TO_PROVINCE (String_of adcode)) as [v |] eqn:E;
    [| reflexivity].
  assert (is_table_key (String_of adcode) = true)
    by (apply is_table_key_own; now exists v).
  congruence.
Qed.

(** ** The resolver *)

(** C1.  On every input, string or number, and every options value:
    when the text of the input is not six digits, or the special regions
    are left out and the text is one of the three special codes, or the text
    is not a key of the table, [getProvinceNameByAdcode] returns
    [returnDefault] if it was given and the text itself otherwise; in every
    other case it returns the table's entry for that text.  With no
    [returnDefault], the text comes back in those three cases only.  So
    ['710000'] gives ['台湾省'] by default and ['710000'] when special
    regions are left out. *)
Theorem getProvinceNameByAdcode_cases (adcode : adcode_input)
    (options : option NameOptions) :
  let codeStr := String_of adcode in
  (if falls_back (name_include options) codeStr
   then getProvinceNameByAdcode adcode options =
        VString (nullish (name_default options) codeStr)
   else exists provinceName,
        own_property ADCODE_TO_PROVINCE codeStr = Some provinceName /\
        getProvinceNameByAdcode adcode options = VString provinceName)
  /\ (name_default options = None ->
      (getProvinceNameByAdcode adcode options = VString codeStr <->
       falls_back (name_include options) codeStr = true))
  /\ getProvinceNameByAdcode (AdStr "710000") None = VString "台湾省"
  /\ getProvinceNameByAdcode (AdStr "710000")
       (Some (mkNameOptions (Some false) None)) = VString "710000".
Proof.
  intros codeStr.
  assert (Hcases :
    if falls_back (name_include options) codeStr
    then getProvinceNameByAdcode adcode options =
         VString (nullish (name_default options) codeStr)
    else exists provinceName,
         own_property ADCODE_TO_PROVINCE codeStr = Some provinceName /\
         getProvinceNameByAdcode adcode options = VString provinceName).
  { rewrite getProvinceNameByAdcode_unfold. fold codeStr.
    destruct (falls_back (name_include options) codeStr) eqn:Hfb; [reflexivity |].
    unfold falls_back in Hfb.
    apply orb_false_elim in Hfb. destruct Hfb as [_ Hkey].
    apply negb_false_iff, is_table_key_own in Hkey.
    destruct Hkey as [provinceName Hown].
    exists provinceName. now rewrite Hown. }
  split; [exact Hcases | split; [| split; reflexivity]].
  intros Hnone. rewrite Hnone in Hcases. cbn [nullish] in Hcases.
  destruct (falls_back (name_include options) codeStr) eqn:Hfb.
  - split; [reflexivity | intros _; exact Hcases].
  - split; [| discriminate].
    destruct Hcases as [provinceName [Hown Hres]].
    rewrite Hres. intros [= ->]. exfalso.
    unfold falls_back in Hfb. apply orb_false_elim in Hfb.
    destruct Hfb as [Hfb _]. apply orb_false_elim in Hfb.
    destruct Hfb as [Hpat _]. apply negb_false_iff in Hpat.
    apply own_property_Some_In in Hown.
    pose proof (proj1 (Forall_forall _ _) table_names_not_codes _ Hown) as Hname.
    cbn [snd] in Hname. congruence.
Qed.

(** C2.  For every input whose text is a key of the table, with special
    regions included and no fallback, [getProvinceNameByAdcode] returns the
    table's entry for that key, and [getAdcodeByProvinceName] maps that
    entry back to the key. *)
Theorem resolve_round_trip (adcode : adcode_input) (options : option NameOptions) :
  In (String_of adcode) (map fst ADCODE_TO_PROVINCE) ->
  name_include options = true ->
  name_default options = None ->
  exists provinceName,
    own_property ADCODE_TO_PROVINCE (String_of adcode) = Some provinceName /\
    getProvinceNameByAdcode adcode options = VString provinceName /\
    getAdcodeByProvinceName provinceName = Some (String_of adcode).
Proof.
  intros Hkey Hincl _.
  pose proof (table_key_six_digits _ Hkey) as Hpat.
  apply in_map_iff in Hkey. destruct Hkey as [[code provinceName] [Hcode Hentry]].
  simpl in Hcode.
  destruct (proj1 (Forall_forall _ _) table_entries_round_trip _ Hentry)
    as [Hown Hback].
  cbn [fst snd] in Hown, Hback. rewrite Hcode in Hown, Hback.
  exists provinceName. repeat split; try assumption.
  rewrite getProvinceNameByAdcode_unfold.
  unfold falls_back, excluded_by_policy.
  rewrite Hpat, Hincl, Hown. simpl.
  assert (Hk : is_table_key (String_of adcode) = true)
    by (apply is_table_key_own; now exists provinceName).
  now rewrite Hk.
Qed.

(** C3.  On every input and every options value, [isValidProvinceAdcode]
    is true exactly when the text of the input is six digits, is not shut
    out by the special-region policy, and is a key of the table.  ["440000"]
    is valid and ["000000"] is not. *)
Theorem isValidProvinceAdcode_iff (adcode : adcode_input)
    (options : option RegionOptions) :
  let codeStr := String_of adcode in
  (isValidProvinceAdcode adcode options = true <->
     six_digit_pattern codeStr = true /\
     ~ (region_include options = false /\ In codeStr special_region_codes) /\
     In codeStr (map fst ADCODE_TO_PROVINCE))
  /\ isValidProvinceAdcode (AdStr "440000") None = true
  /\ isValidProvinceAdcode (AdStr "000000") None = false.
Proof.
  intros codeStr. split; [| split; reflexivity].
  unfold isValidProvinceAdcode, includes. fold codeStr.
  destruct (six_digit_pattern codeStr) eqn:Hpat; cbn [negb].
  - rewrite (HasProperty_behind_guard _ Hpat). unfold is_table_key.
    destruct (region_include options); cbn [negb andb].
    + split.
      * intros Hkey%string_in_In.
        repeat split; [intros [Hno _]; discriminate | assumption].
      * intros [_ [_ Hkey]]. now apply string_in_In.
    + destruct (string_in codeStr special_region_codes) eqn:Hsp.
      * apply string_in_In in Hsp. split; [discriminate |].
        intros [_ [Hno _]]. exfalso. apply Hno. now split.
      * apply string_in_false in Hsp. split.
        -- intros Hkey%string_in_In.
           repeat split; [intros [_ Hin]; now apply Hsp | assumption].
        -- intros [_ [_ Hkey]]. now apply string_in_In.
  - split; [discriminate | intros [Hno _]; discriminate].
Qed.

(** C6.  With special regions included, [getAllProvinceAdcodes] returns
    the keys of the table in the order of its definition; with special
    regions left out it returns that sequence without the codes ["710000"],
    ["810000"] and ["820000"], which are its last three elements; and two
    calls whose options settle the policy the same way return the same
    sequence. *)
Theorem getAllProvinceAdcodes_order (options : option RegionOptions) :
  getAllProvinceAdcodes options =
    (if region_include options
     then map fst ADCODE_TO_PROVINCE
     else filter (fun code => negb (string_in code special_region_codes))
                 (map fst ADCODE_TO_PROVINCE))
  /\ map fst ADCODE_TO_PROVINCE =
       (getAllProvinceAdcodes (Some (mkRegionOptions (Some false)))
        ++ ["710000"; "810000"; "820000"])%list
  /\ (forall options' : option RegionOptions,
        region_include options' = region_include options ->
        getAllProvinceAdcodes options' = getAllProvinceAdcodes options).
Proof.
  split; [| split].
  - unfold getAllProvinceAdcodes, includes.
    rewrite table_keys_in_definition_order.
    now destruct (region_include options).
  - vm_compute. reflexivity.
  - intros options' Hsame. unfold getAllProvinceAdcodes. now rewrite Hsame.
Qed.

(** C7.  On every input, well formed or not, and every options value,
    [getProvinceNameByAdcode] returns a string: the fallback, the text of
    the input, or a name of the table, and never a value inherited from the
    table's prototype. *)
Theorem getProvinceNameByAdcode_returns_string (adcode : adcode_input)
    (options : option NameOptions) :
  exists s : string,
    getProvinceNameByAdcode adcode options = VString s /\
    (s = nullish (name_default options) (String_of adcode) \/
     In s (map snd ADCODE_TO_PROVINCE)).
Proof.
  rewrite getProvinceNameByAdcode_unfold.
  destruct (falls_back (name_include options) (String_of adcode)).
  - eexists. split; [reflexivity | now left].
  - destruct (own_property ADCODE_TO_PROVINCE (String_of adcode))
      as [provinceName |] eqn:Hown; simpl.
    + exists provinceName. split; [reflexivity | right].
      apply own_property_Some_In in Hown. now apply (in_map snd) in Hown.
    + eexists. split; [reflexivity | now left].
Qed.

(** C9.  On every input and every options value, [isValidProvinceAdcode]
    is true exactly when the text of the input is an element of
    [getAllProvinceAdcodes] called with the same options. *)
Theorem isValidProvinceAdcode_agrees_with_enumeration (adcode : adcode_input)
    (options : option RegionOptions) :
  isValidProvinceAdcode adcode options = true <->
  In (String_of adcode) (getAllProvinceAdcodes options).
Proof.
  unfold isValidProvinceAdcode, getAllProvinceAdcodes, includes.
  rewrite table_keys_in_definition_order.
  set (codeStr := String_of adcode).
  destruct (six_digit_pattern codeStr) eqn:Hpat; cbn [negb].
  - rewrite (HasProperty_behind_guard _ Hpat). unfold is_table_key.
    destruct (region_include options); cbn [negb andb].
    + apply string_in_In.
    + rewrite filter_In.
      destruct (string_in codeStr special_region_codes); cbn [negb].
      * split; [discriminate | intros [_ Hno]; discriminate].
      * rewrite string_in_In. split; [intros H; now split | now intros [H _]].
  - split; [discriminate |]. intros Hin.
    assert (Hkey : In codeStr (map fst ADCODE_TO_PROVINCE)).
    { destruct (negb (region_include options)); [| assumption].
      now apply filter_In in Hin. }
    apply table_key_six_digits in Hkey. congruence.
Qed.

(** C10.  A name that occurs as a value of the table is mapped by
    [getAdcodeByProvinceName] to a code, and [getProvinceNameByAdcode] with
    default options maps that code back to the name; any other name is
    mapped to [null]. *)
Theorem reverse_round_trip (provinceName : string) :
  if string_in provinceName (map snd ADCODE_TO_PROVINCE)
  then exists code,
         getAdcodeByProvinceName provinceName = Some code /\
         getProvinceNameByAdcode (AdStr code) None = VString provinceName
  else getAdcodeByProvinceName provinceName = None.
Proof.
  destruct (string_in provinceName (map snd ADCODE_TO_PROVINCE)) eqn:Hval.
  - apply string_in_In, in_map_iff in Hval.
    destruct Hval as [[code name'] [Hname Hentry]]. simpl in Hname. subst name'.
    destruct (proj1 (Forall_forall _ _) table_entries_round_trip _ Hentry)
      as [Hown Hback]. cbn [fst snd] in Hown, Hback.
    exists code. split; [assumption |].
    assert (Hkey : In code (map fst ADCODE_TO_PROVINCE))
      by (now apply (in_map fst) in Hentry).
    rewrite getProvinceNameByAdcode_unfold. simpl String_of.
    unfold falls_back, excluded_by_policy.
    rewrite (table_key_six_digits _ Hkey), Hown.
    assert (Hk : is_table_key code = true) by (now apply string_in_In).
    now rewrite Hk.
  - apply string_in_false in Hval.
    unfold getAdcodeByProvinceName.
    rewrite table_entries_in_definition_order.
    destruct (find (fun e => String.eqb (snd e) provinceName) ADCODE_TO_PROVINCE)
      as [e |] eqn:Hfind; [| reflexivity].
    apply find_some in Hfind. destruct Hfind as [Hin Heq].
    apply String.eqb_eq in Heq. exfalso. apply Hval. rewrite <- Heq.
    now apply in_map.
Qed.

(** ** Enumeration is a rearrangement *)

Lemma insert_by_index_Permutation {A : Type} (i : N) (e : string * A)
    (sorted : list (N * (string * A))) :
  Permutation (insert_by_index i e sorted) ((i, e) :: sorted).
Proof.
  induction sorted as [| [j e'] rest IH]; simpl.
  - apply Permutation_refl.
  - destruct (i <? j)%N.
    + apply Permutation_refl.
    + eapply Permutation_trans; [apply perm_skip, IH | apply perm_swap].
Qed.

Lemma Object_entries_Permutation {A : Type} (o : object A) :
  Permutation (Object_entries o) o.
Proof.
  unfold Object_entries, named_properties.
  induction o as [| [k v] rest IH]; simpl.
  - apply Permutation_refl.
  - destruct (array_index k) as [i |].
    + eapply Permutation_trans.
      * apply Permutation_app_tail, Permutation_map, insert_by_index_Permutation.
      * simpl. now apply perm_skip.
    + apply Permutation_sym. eapply Permutation_trans.
      * apply perm_skip, Permutation_sym, IH.
      * apply Permutation_middle.
Qed.

Lemma Object_entries_In {A : Type} (o : object A) (entry : string * A) :
  In entry (Object_entries o) <-> In entry o.
Proof.
  split; apply Permutation_in;
    [| apply Permutation_sym]; apply Object_entries_Permutation.
Qed.

(** ** The loop as a map *)

Lemma fold_left_push {A B : Type} (f : A -> B) (l : list A) (done : list B) :
  fold_left (fun acc x => push acc (f x)) l done = (done ++ map f l)%list.
Proof.
  revert done. induction l as [| x l IH]; intros done; simpl.
  - now rewrite app_nil_r.
  - rewrite IH. unfold push. now rewrite <- app_assoc.
Qed.

Lemma fold_left_visit_item (points : list item) (_time : list scalar)
    (_value : list number) :
  fold_left visit_item points (_time, _value) =
  ((_time ++ map time_component points)%list,
   (_value ++ map (fun it => parseFloat (value_component it)) points)%list).
Proof.
  revert _time _value. induction points as [| it points IH]; intros _time _value.
  - simpl. now rewrite !app_nil_r.
  - simpl. rewrite IH. unfold push. now rewrite <- !app_assoc.
Qed.

Lemma series_of_entry_eq (key : string) (points : list item) :
  series_of_entry (key, points) =
  {| name := key;
     time := map time_component points;
     value := map (fun it => parseFloat (value_component it)) points |}.
Proof. unfold series_of_entry. now rewrite fold_left_visit_item. Qed.

Lemma reshape_eq (data : ApiData) :
  reshape data = map series_of_entry (Object_entries data).
Proof. unfold reshape. now rewrite fold_left_push. Qed.

(** ** The text scan of [parseFloat] *)

Lemma string_app_assoc (a b c : string) : (a ++ b) ++ c = a ++ (b ++ c).
Proof. induction a as [| x a IH]; simpl; [reflexivity | now rewrite IH]. Qed.

Lemma strip_prefix_app (p s rest : string) :
  strip_prefix p s = Some rest -> s = p ++ rest.
Proof.
  revert s. induction p as [| a p IH]; intros s; simpl.
  - now intros [= ->].
  - destruct s as [| b s]; [discriminate |].
    destruct (Ascii.eqb a b) eqn:E; [| discriminate].
    apply Ascii.eqb_eq in E. subst b. intros H. now rewrite (IH _ H).
Qed.

Lemma span_digits_app (s : string) :
  s = fst (span_digits s) ++ snd (span_digits s)
  /\ all_digits (fst (span_digits s)) = true.
Proof.
  induction s as [| c s [IHapp IHdig]]; simpl; [now split |].
  destruct (is_digit c) eqn:E; [| now split].
  destruct (span_digits s) as [digits tail]. simpl in *.
  split; [now rewrite <- IHapp | now rewrite E].
Qed.

Lemma span_sign_app (s : string) :
  s = fst (span_sign s) ++ snd (span_sign s).
Proof.
  destruct s as [| c s]; simpl; [reflexivity |].
  now destruct (Ascii.eqb c "+" || Ascii.eqb c "-").
Qed.

Lemma exponent_part_prefix (s : string) :
  exists rest, s = exponent_part s ++ rest.
Proof.
  destruct s as [| c s]; simpl; [now exists "" |].
  destruct (Ascii.eqb c "e" || Ascii.eqb c "E"); [| now eexists].
  pose proof (span_sign_app s) as Hsign.
  destruct (span_sign s) as [sign after_sign]. simpl in Hsign.
  pose proof (span_digits_app after_sign) as [Hdigits _].
  destruct (span_digits after_sign) as [digits tail]. simpl in Hdigits.
  destruct (String.eqb digits ""); [now eexists |].
  exists tail. simpl. now rewrite string_app_assoc, <- Hdigits, <- Hsign.
Qed.

Lemma unsigned_decimal_prefix_is_prefix (s literal : string) :
  unsigned_decimal_prefix s = Some literal -> exists rest, s = literal ++ rest.
Proof.
  unfold unsigned_decimal_prefix.
  destruct (strip_prefix "Infinity" s) as [rest |] eqn:Einf.
  - intros [= <-]. exists rest. now apply strip_prefix_app.
  - pose proof (span_digits_app s) as [Hint _].
    destruct (span_digits s) as [int_digits after_int]. cbn [fst snd] in Hint.
    assert (Hplain : (if String.eqb int_digits "" then None
                      else Some (int_digits ++ exponent_part after_int))
                     = Some literal -> exists rest, s = literal ++ rest).
    { destruct (String.eqb int_digits ""); [discriminate |].
      intros [= <-]. destruct (exponent_part_prefix after_int) as [rest Hrest].
      exists rest. now rewrite string_app_assoc, <- Hrest. }
    destruct after_int as [| c after_dot]; [exact Hplain |].
    destruct (Ascii.eqb c ".") eqn:Edot.
    + apply Ascii.eqb_eq in Edot. subst c.
      pose proof (span_digits_app after_dot) as [Hfrac _].
      destruct (span_digits after_dot) as [frac_digits after_frac].
      cbn [fst snd] in Hfrac.
      destruct (String.eqb int_digits "" && String.eqb frac_digits "");
        [discriminate |].
      intros [= <-]. destruct (exponent_part_prefix after_frac) as [rest Hrest].
      exists rest. rewrite !string_app_assoc. cbn [append].
      rewrite string_app_assoc, <- Hrest, <- Hfrac. exact Hint.
    + destruct c as [[] [] [] [] [] [] [] []];
        try discriminate Edot; exact Hplain.
Qed.

(** What [parseFloat] hands to the numeric conversion is a prefix of the
    trimmed text. *)
Lemma decimal_prefix_is_prefix (s literal : string) :
  decimal_prefix s = Some literal -> exists rest, s = literal ++ rest.
Proof.
  unfold decimal_prefix. pose proof (span_sign_app s) as Hsign.
  destruct (span_sign s) as [sign unsigned]. cbn [fst snd] in Hsign.
  destruct (unsigned_decimal_prefix unsigned) as [u |] eqn:E; [| discriminate].
  intros [= <-]. destruct (unsigned_decimal_prefix_is_prefix _ _ E) as [rest Hrest].
  exists rest. now rewrite string_app_assoc, <- Hrest.
Qed.

(** ** Trimming *)

Lemma strip_prefix_length (p s rest : string) :
  strip_prefix p s = Some rest ->
  String.length s = String.length p + String.length rest.
Proof.
  revert s. induction p as [| a p IH]; intros s; simpl.
  - now intros [= ->].
  - destruct s as [| b s]; [discriminate |].
    destruct (Ascii.eqb a b); [| discriminate].
    intros H. simpl. now rewrite (IH _ H).
Qed.

Lemma strip_any_shorter (prefixes : list string) (s rest : string) :
  Forall (fun p => 0 < String.length p) prefixes ->
  strip_any prefixes s = Some rest ->
  String.length rest < String.length s.
Proof.
  induction 1 as [| p others Hp _ IH]; simpl; [discriminate |].
  destruct (strip_prefix p s) as [r |] eqn:E; [| exact IH].
  intros [= ->]. apply strip_prefix_length in E. lia.
Qed.

Lemma StrWhiteSpaceChar_nonempty :
  Forall (fun p => 0 < String.length p) StrWhiteSpaceChar.
Proof. repeat constructor. Qed.

Lemma trim_start_done (fuel : nat) (s : string) :
  String.length s <= fuel ->
  strip_any StrWhiteSpaceChar (trim_start fuel s) = None.
Proof.
  revert s. induction fuel as [| fuel IH]; intros s Hlen.
  - destruct s; [reflexivity | simpl in Hlen; lia].
  - cbn [trim_start].
    destruct (strip_any StrWhiteSpaceChar s) as [rest |] eqn:E; [| exact E].
    apply IH.
    pose proof (strip_any_shorter _ _ _ StrWhiteSpaceChar_nonempty E). lia.
Qed.

(** The fuel given to the trimming loop is enough: nothing is left to
    trim at the head of its result. *)
Lemma TrimStart_done (s : string) :
  strip_any StrWhiteSpaceChar (TrimStart s) = None.
Proof. apply trim_start_done. apply Nat.le_refl. Qed.

Lemma parseFloat_unparseable (x : scalar) :
  parses_as_number x = false -> parseFloat x = NaN.
Proof.
  unfold parses_as_number, parseFloat.
  now destruct (decimal_prefix (TrimStart (ToString x))).
Qed.

(** ** The reshaping loop *)

(** C4.  For every payload, the series produced line up one for one with
    the entries of the payload, which the loop visits in the enumeration
    order of its keys; each series carries the key of its entry, and its
    [time] and [value] arrays both have the length of the entry's point
    list; the empty payload gives the empty array. *)
Theorem reshape_one_series_per_key (data : ApiData) :
  Forall2 (fun entry series =>
             name series = fst entry /\
             length (time series) = length (snd entry) /\
             length (value series) = length (snd entry))
          (Object_entries data) (reshape data)
  /\ Permutation (Object_entries data) data
  /\ length (reshape data) = length data
  /\ reshape [] = [].
Proof.
  split; [| split; [| split]].
  - rewrite reshape_eq.
    induction (Object_entries data) as [| [key points] entries IH]; cbn [map].
    + constructor.
    + constructor; [| exact IH].
      rewrite series_of_entry_eq. cbn [name time value fst snd].
      now rewrite !length_map.
  - apply Object_entries_Permutation.
  - rewrite reshape_eq, length_map.
    apply Permutation_length, Object_entries_Permutation.
  - reflexivity.
Qed.

(** C5.  For every payload, every entry of it and every point of that
    entry whose value component does not read as a number, the series of
    that entry is produced all the same, in full length, with [NaN] at the
    position of that point, and with every position, this one included,
    holding the point's time component and the number [parseFloat] gives
    for its value component. *)
Theorem unparseable_value_gives_NaN (data : ApiData) (key : string)
    (points : list item) (i : nat) (bad : item) :
  In (key, points) data ->
  nth_error points i = Some bad ->
  parses_as_number (value_component bad) = false ->
  exists series,
    In series (reshape data) /\
    name series = key /\
    length (time series) = length points /\
    length (value series) = length points /\
    nth_error (value series) i = Some NaN /\
    (forall j it, nth_error points j = Some it ->
       nth_error (time series) j = Some (time_component it) /\
       nth_error (value series) j = Some (parseFloat (value_component it))).
Proof.
  intros Hentry Hbad Hnan.
  assert (Hall : forall j it, nth_error points j = Some it ->
            nth_error (map time_component points) j = Some (time_component it) /\
            nth_error (map (fun it => parseFloat (value_component it)) points) j
              = Some (parseFloat (value_component it))).
  { intros j it Hj. split; rewrite nth_error_map, Hj; reflexivity. }
  exists (series_of_entry (key, points)).
  rewrite series_of_entry_eq. cbn [name time value].
  repeat split.
  - rewrite reshape_eq, <- series_of_entry_eq.
    apply in_map. now apply Object_entries_In.
  - apply length_map.
  - apply length_map.
  - destruct (Hall _ _ Hbad) as [_ Hv]. rewrite Hv.
    now rewrite (parseFloat_unparseable _ Hnan).
  - now apply Hall.
  - now apply Hall.
Qed.

(** C8, as the loop does it.  For every payload and every entry, the
    series produced holds at each position the first component of the
    point as it came, with no conversion, and the number [parseFloat] gives
    for the second component; an element of [time] is therefore a string
    exactly when the first component of its point is one. *)
Theorem reshape_components (data : ApiData) :
  reshape data =
  map (fun entry =>
         {| name := fst entry;
            time := map time_component (snd entry);
            value := map (fun it => parseFloat (value_component it)) (snd entry) |})
      (Object_entries data).
Proof.
  rewrite reshape_eq. apply map_ext. intros [key points].
  apply series_of_entry_eq.
Qed.

(** ** The resolver functions together *)

Lemma isValidProvinceAdcode_unfold (adcode : adcode_input)
    (options : option RegionOptions) :
  isValidProvinceAdcode adcode options =
  negb (falls_back (region_include options) (String_of adcode)).
Proof.
  unfold isValidProvinceAdcode, falls_back, excluded_by_policy, includes.
  destruct (six_digit_pattern (String_of adcode)) eqn:Hpat; [| reflexivity].
  change (negb true) with false. rewrite orb_false_l.
  destruct (negb (region_include options)
            && string_in (String_of adcode) special_region_codes);
    [reflexivity |].
  rewrite orb_false_l, negb_involutive.
  now apply HasProperty_behind_guard.
Qed.

Lemma special_codes_are_entries :
  Forall (fun code => six_digit_pattern code = true /\ is_table_key code = true)
         special_region_codes.
Proof. repeat constructor. Qed.

Lemma find_name_Some (provinceName code : string) :
  getAdcodeByProvinceName provinceName = Some code ->
  In (code, provinceName) ADCODE_TO_PROVINCE.
Proof.
  unfold getAdcodeByProvinceName. rewrite table_entries_in_definition_order.
  destruct (find (fun e => String.eqb (snd e) provinceName) ADCODE_TO_PROVINCE)
    as [[k v] |] eqn:Hfind; [| discriminate].
  apply find_some in Hfind. destruct Hfind as [Hin Heq].
  apply String.eqb_eq in Heq. cbn [fst snd] in *. intros [= <-]. now subst v.
Qed.

Lemma valid_has_entry (adcode : adcode_input) (options : option RegionOptions) :
  isValidProvinceAdcode adcode options = true ->
  six_digit_pattern (String_of adcode) = true /\
  excluded_by_policy (region_include options) (String_of adcode) = false /\
  exists provinceName,
    own_property ADCODE_TO_PROVINCE (String_of adcode) = Some provinceName.
Proof.
  rewrite isValidProvinceAdcode_unfold. intros Hv.
  apply negb_true_iff in Hv. unfold falls_back in Hv.
  apply orb_false_elim in Hv. destruct Hv as [Hv Hkey].
  apply orb_false_elim in Hv. destruct Hv as [Hpat Hpol].
  apply negb_false_iff in Hpat. apply negb_false_iff in Hkey.
  repeat split; try assumption. now apply is_table_key_own.
Qed.

(** X1.  A code found by [getAdcodeByProvinceName] is valid for
    [isValidProvinceAdcode] and listed by [getAllProvinceAdcodes], both under
    default options. *)
Theorem reverse_lookup_gives_valid_code (provinceName code : string) :
  getAdcodeByProvinceName provinceName = Some code ->
  isValidProvinceAdcode (AdStr code) None = true /\
  In code (getAllProvinceAdcodes None).
Proof.
  intros Hfound. apply find_name_Some in Hfound.
  assert (Hkey : In code (map fst ADCODE_TO_PROVINCE))
    by (now apply (in_map fst) in Hfound).
  split.
  - rewrite isValidProvinceAdcode_unfold. cbn [String_of region_include].
    unfold falls_back, excluded_by_policy.
    rewrite (table_key_six_digits _ Hkey).
    assert (Hk : is_table_key code = true) by (now apply string_in_In).
    now rewrite Hk.
  - unfold getAllProvinceAdcodes. cbn [region_include negb].
    now rewrite table_keys_in_definition_order.
Qed.

(** X2.  Under one policy, two inputs that are both valid and resolve to
    the same name have the same code text: the resolver never maps two
    provinces to one name. *)
Theorem resolver_injective_on_valid (a b : adcode_input)
    (nameOptions : option NameOptions) (regionOptions : option RegionOptions) :
  name_include nameOptions = region_include regionOptions ->
  isValidProvinceAdcode a regionOptions = true ->
  isValidProvinceAdcode b regionOptions = true ->
  getProvinceNameByAdcode a nameOptions = getProvinceNameByAdcode b nameOptions ->
  String_of a = String_of b.
Proof.
  intros Hsame Ha Hb.
  pose proof Ha as Hfa. pose proof Hb as Hfb.
  rewrite isValidProvinceAdcode_unfold in Hfa, Hfb.
  apply negb_true_iff in Hfa. apply negb_true_iff in Hfb.
  destruct (valid_has_entry _ _ Ha) as [_ [_ [na Hna]]].
  destruct (valid_has_entry _ _ Hb) as [_ [_ [nb Hnb]]].
  rewrite !getProvinceNameByAdcode_unfold, Hsame, Hfa, Hfb, Hna, Hnb.
  cbn [option_map nullish]. intros [= ->].
  apply own_property_Some_In in Hna. apply own_property_Some_In in Hnb.
  destruct (proj1 (Forall_forall _ _) table_entries_round_trip _ Hna) as [_ Hba].
  destruct (proj1 (Forall_forall _ _) table_entries_round_trip _ Hnb) as [_ Hbb].
  cbn [fst snd] in Hba, Hbb. congruence.
Qed.

Lemma listed_key_policy (code : string) (regionOptions : option RegionOptions) :
  In code (getAllProvinceAdcodes regionOptions) ->
  In code (map fst ADCODE_TO_PROVINCE) /\
  excluded_by_policy (region_include regionOptions) code = false.
Proof.
  unfold getAllProvinceAdcodes, excluded_by_policy, includes.
  rewrite table_keys_in_definition_order.
  destruct (region_include regionOptions); cbn [negb andb].
  - intros Hin. split; [exact Hin | reflexivity].
  - intros Hin. apply filter_In in Hin. destruct Hin as [Hin Hno].
    split; [exact Hin | now apply negb_true_iff in Hno].
Qed.

(** X3.  Every code listed by [getAllProvinceAdcodes] resolves, under the
    same policy and whatever the fallback, to a name of the table, and
    [getAdcodeByProvinceName] maps that name back to the code. *)
Theorem listed_codes_round_trip (code : string)
    (nameOptions : option NameOptions) (regionOptions : option RegionOptions) :
  name_include nameOptions = region_include regionOptions ->
  In code (getAllProvinceAdcodes regionOptions) ->
  exists provinceName,
    own_property ADCODE_TO_PROVINCE code = Some provinceName /\
    getProvinceNameByAdcode (AdStr code) nameOptions = VString provinceName /\
    getAdcodeByProvinceName provinceName = Some code.
Proof.
  intros Hsame Hlisted.
  destruct (listed_key_policy _ _ Hlisted) as [Hkey Hpol].
  pose proof (table_key_six_digits _ Hkey) as Hpat.
  apply in_map_iff in Hkey. destruct Hkey as [[c provinceName] [Hc Hentry]].
  cbn [fst] in Hc. subst c.
  destruct (proj1 (Forall_forall _ _) table_entries_round_trip _ Hentry)
    as [Hown Hback]. cbn [fst snd] in Hown, Hback.
  exists provinceName. repeat split; try assumption.
  rewrite getProvinceNameByAdcode_unfold. cbn [String_of].
  unfold falls_back. rewrite Hsame, Hpat, Hpol, Hown.
  assert (Hk : is_table_key code = true)
    by (apply is_table_key_own; now exists provinceName).
  now rewrite Hk.
Qed.

(** X4.  Validity under default options is validity under any options, or
    being one of the three special codes: leaving special regions out
    removes those three codes from the valid ones and nothing else. *)
Theorem validity_across_policies (adcode : adcode_input)
    (options : option RegionOptions) :
  isValidProvinceAdcode adcode None =
  isValidProvinceAdcode adcode options
  || includes special_region_codes (String_of adcode).
Proof.
  rewrite !isValidProvinceAdcode_unfold. cbn [region_include].
  unfold falls_back, excluded_by_policy, includes.
  set (codeStr := String_of adcode).
  destruct (string_in codeStr special_region_codes) eqn:Hsp.
  - apply string_in_In in Hsp.
    destruct (proj1 (Forall_forall _ _) special_codes_are_entries _ Hsp)
      as [Hpat Hkey].
    rewrite Hpat, Hkey. cbn. now rewrite orb_true_r.
  - rewrite !andb_false_r, !orb_false_r. reflexivity.
Qed.

(** X5.  The resolver and the validity check agree: when the input is
    valid under a policy the resolver returns its table entry under that
    policy, whatever the fallback; when it is not, the resolver returns the
    fallback if one is given and the text of the input otherwise. *)
Theorem resolver_agrees_with_validity (adcode : adcode_input)
    (includeSpecial : option bool) (fallback : option string) :
  if isValidProvinceAdcode adcode (Some (mkRegionOptions includeSpecial))
  then exists provinceName,
         own_property ADCODE_TO_PROVINCE (String_of adcode) = Some provinceName /\
         getProvinceNameByAdcode adcode
           (Some (mkNameOptions includeSpecial fallback)) = VString provinceName
  else getProvinceNameByAdcode adcode
         (Some (mkNameOptions includeSpecial fallback))
       = VString (nullish fallback (String_of adcode)).
Proof.
  destruct (isValidProvinceAdcode adcode (Some (mkRegionOptions includeSpecial)))
    eqn:Hv.
  - destruct (valid_has_entry _ _ Hv) as [_ [_ [provinceName Hown]]].
    exists provinceName. split; [assumption |].
    rewrite isValidProvinceAdcode_unfold in Hv. apply negb_true_iff in Hv.
    rewrite getProvinceNameByAdcode_unfold.
    cbn [name_include name_default includeSpecialRegions returnDefault
         region_include regionIncludeSpecialRegions] in *.
    now rewrite Hv, Hown.
  - rewrite isValidProvinceAdcode_unfold in Hv. apply negb_false_iff in Hv.
    rewrite getProvinceNameByAdcode_unfold.
    cbn [name_include name_default includeSpecialRegions returnDefault
         region_include regionIncludeSpecialRegions] in *.
    now rewrite Hv.
Qed.

(** X6.  With no [returnDefault], resolving the resolver's own answer
    gives that answer again: a name, or a text that was not resolved, is
    left as it is. *)
Theorem resolving_twice (adcode : adcode_input) (options : option NameOptions) :
  name_default options = None ->
  exists answer,
    getProvinceNameByAdcode adcode options = VString answer /\
    getProvinceNameByAdcode (AdStr answer) options = VString answer.
Proof.
  intros Hnone. rewrite getProvinceNameByAdcode_unfold, Hnone. cbn [nullish].
  destruct (falls_back (name_include options) (String_of adcode)) eqn:Hfb.
  - exists (String_of adcode). split; [reflexivity |].
    rewrite getProvinceNameByAdcode_unfold, Hnone. cbn [String_of nullish].
    now rewrite Hfb.
  - destruct (own_property ADCODE_TO_PROVINCE (String_of adcode))
      as [provinceName |] eqn:Hown; cbn [option_map nullish].
    + exists provinceName. split; [reflexivity |].
      rewrite getProvinceNameByAdcode_unfold, Hnone. cbn [String_of nullish].
      apply own_property_Some_In in Hown.
      pose proof (proj1 (Forall_forall _ _) table_names_not_codes _ Hown) as Hno.
      cbn [snd] in Hno. unfold falls_back. now rewrite Hno.
    + exfalso. unfold falls_back in Hfb. apply orb_false_elim in Hfb.
      destruct Hfb as [_ Hkey]. apply negb_false_iff, is_table_key_own in Hkey.
      destruct Hkey as [v Hv]. congruence.
Qed.

(** X7.  [getAdcodeByProvinceName] matches names only: given a text of
    six digits, a code in place of a name, it returns [null]. *)
Theorem reverse_lookup_of_code_is_null (text : string) :
  six_digit_pattern text = true ->
  getAdcodeByProvinceName text = None.
Proof.
  intros Hpat.
  destruct (getAdcodeByProvinceName text) as [code |] eqn:Hfound; [| reflexivity].
  apply find_name_Some in Hfound.
  pose proof (proj1 (Forall_forall _ _) table_names_not_codes _ Hfound) as Hno.
  cbn [snd] in Hno. congruence.
Qed.

Lemma table_keys_NoDup : NoDup (map fst ADCODE_TO_PROVINCE).
Proof.
  assert (H : nodup string_dec (map fst ADCODE_TO_PROVINCE)
              = map fst ADCODE_TO_PROVINCE) by (vm_compute; reflexivity).
  rewrite <- H. apply NoDup_nodup.
Qed.

(** X8.  [getAllProvinceAdcodes] never lists a code twice, whatever the
    options. *)
Theorem getAllProvinceAdcodes_NoDup (options : option RegionOptions) :
  NoDup (getAllProvinceAdcodes options).
Proof.
  unfold getAllProvinceAdcodes. rewrite table_keys_in_definition_order.
  destruct (negb (region_include options)).
  - apply NoDup_filter, table_keys_NoDup.
  - apply table_keys_NoDup.
Qed.

(** X9.  [dblClickFn] always has a text to ask for, and does not check the
    code first: for a valid code it asks for the base address followed by
    the province name, and for any other input for the base address
    followed by the text of the input. *)
Theorem request_url_cases (adcode : adcode_input) :
  if isValidProvinceAdcode adcode None
  then exists provinceName,
         own_property ADCODE_TO_PROVINCE (String_of adcode) = Some provinceName /\
         request_url adcode = Some (url ++ provinceName)
  else request_url adcode = Some (url ++ String_of adcode).
Proof.
  unfold request_url. rewrite getProvinceNameByAdcode_unfold.
  destruct (isValidProvinceAdcode adcode None) eqn:Hv.
  - destruct (valid_has_entry _ _ Hv) as [_ [_ [provinceName Hown]]].
    rewrite isValidProvinceAdcode_unfold in Hv. apply negb_true_iff in Hv.
    cbn [region_include name_include name_default] in *.
    exists provinceName. split; [assumption |]. now rewrite Hv, Hown.
  - rewrite isValidProvinceAdcode_unfold in Hv. apply negb_false_iff in Hv.
    cbn [region_include name_include name_default] in *.
    now rewrite Hv.
Qed.

(** ** The reshaping loop at its edges *)

Lemma Object_entries_no_index {A : Type} (o : object A) :
  (forall key, In key (map fst o) -> array_index key = None) ->
  Object_entries o = o.
Proof.
  unfold Object_entries, named_properties.
  induction o as [| [k v] rest IH]; intros Hnone; [reflexivity |].
  assert (Hk : array_index k = None) by (apply Hnone; now left).
  assert (Hrest : forall key, In key (map fst rest) -> array_index key = None)
    by (intros key Hin; apply Hnone; now right).
  specialize (IH Hrest).
  cbn [index_properties filter fst]. rewrite Hk.
  destruct (index_properties rest) as [| p ps] eqn:E.
  - cbn [map app] in *. now rewrite IH.
  - cbn [map app] in *. exfalso.
    assert (Hlen : length (snd p :: (map snd ps ++
              filter (fun e => match array_index (fst e) with
                               | Some _ => false | None => true end) rest)%list)
                   = length rest) by (now rewrite IH).
    pose proof (filter_length_le
                  (fun e : string * A => match array_index (fst e) with
                               | Some _ => false | None => true end) rest) as Hle.
    assert (Hin : In (snd p) rest).
    { rewrite <- IH. now left. }
    assert (Hidx : In p (index_properties rest)) by (rewrite E; now left).
    clear - Hidx Hrest Hin.
    assert (Hsome : forall q, In q (index_properties rest) ->
                      array_index (fst (snd q)) = Some (fst q)).
    { clear. induction rest as [| [k v] rest IH]; cbn [index_properties];
        [intros q [] |].
      destruct (array_index k) as [i |] eqn:Ek; [| exact IH].
      intros q Hq.
      apply (Permutation_in _ (insert_by_index_Permutation i (k, v) _)) in Hq.
      destruct Hq as [<- | Hq]; [exact Ek | now apply IH]. }
    specialize (Hsome _ Hidx).
    rewrite (Hrest (fst (snd p))) in Hsome; [discriminate |].
    now apply in_map.
Qed.

Lemma insert_by_index_map {A B : Type} (f : A -> B) (i : N) (e : string * A)
    (sorted : list (N * (string * A))) :
  insert_by_index i (fst e, f (snd e))
    (map (fun q => (fst q, (fst (snd q), f (snd (snd q))))) sorted) =
  map (fun q => (fst q, (fst (snd q), f (snd (snd q)))))
      (insert_by_index i e sorted).
Proof.
  induction sorted as [| [j e'] rest IH]; cbn [insert_by_index map fst snd].
  - reflexivity.
  - destruct (i <? j)%N; cbn [map fst snd]; [reflexivity | now rewrite IH].
Qed.

(** Enumerating after changing the values is changing the values after
    enumerating: the order only looks at the keys. *)
Lemma Object_entries_map_values {A B : Type} (f : A -> B) (o : object A) :
  Object_entries (map (fun e => (fst e, f (snd e))) o) =
  map (fun e => (fst e, f (snd e))) (Object_entries o).
Proof.
  unfold Object_entries, named_properties. rewrite map_app. f_equal.
  - assert (Hidx : index_properties (map (fun e => (fst e, f (snd e))) o) =
                   map (fun q => (fst q, (fst (snd q), f (snd (snd q)))))
                       (index_properties o)).
    { induction o as [| [k v] rest IH]; cbn [map index_properties fst snd];
        [reflexivity |].
      destruct (array_index k) as [i |]; [| exact IH].
      rewrite IH. apply (insert_by_index_map f i (k, v)). }
    rewrite Hidx, !map_map. reflexivity.
  - induction o as [| [k v] rest IH]; cbn [map filter fst snd]; [reflexivity |].
    destruct (array_index k); cbn [map fst snd]; now rewrite IH.
Qed.

Lemma first_two_components (it : item) :
  time_component (first_two it) = time_component it /\
  value_component (first_two it) = value_component it.
Proof.
  unfold time_component, value_component, first_two, at_index.
  cbn [item_values].
  destruct (item_values it) as [| t [| v rest]]; split; reflexivity.
Qed.

Lemma NoDup_keys_same_value {A : Type} (o : object A) (key : string) (v w : A) :
  NoDup (map fst o) -> In (key, v) o -> In (key, w) o -> v = w.
Proof.
  induction o as [| [k x] rest IH]; cbn [map fst]; [intros _ [] |].
  intros Hnd Hv Hw. inversion Hnd as [| ? ? Hnot Hnd']; subst.
  destruct Hv as [Ev | Hv]; destruct Hw as [Ew | Hw].
  - congruence.
  - exfalso. apply Hnot. inversion Ev; subst.
    apply (in_map fst) in Hw. exact Hw.
  - exfalso. apply Hnot. inversion Ew; subst.
    apply (in_map fst) in Hv. exact Hv.
  - now apply IH.
Qed.

(** X10.  When no series name of the payload is an array index, the series
    come out in the order of the payload. *)
Theorem reshape_keeps_payload_order (data : ApiData) :
  (forall key, In key (map fst data) -> array_index key = None) ->
  reshape data =
  map (fun entry =>
         {| name := fst entry;
            time := map time_component (snd entry);
            value := map (fun it => parseFloat (value_component it)) (snd entry) |})
      data.
Proof.
  intros Hnone. rewrite reshape_eq, (Object_entries_no_index _ Hnone).
  apply map_ext. intros [key points]. apply series_of_entry_eq.
Qed.

(** X11.  A point whose value component is missing because the point has
    fewer than two values, or is [null], or is a boolean, is not skipped and
    raises nothing: the callback appends the point's time component to
    [_time] and [NaN] to [_value]. *)
Theorem missing_value_gives_NaN (_time : list scalar) (_value : list number)
    (it : item) :
  length (item_values it) < 2 \/
  value_component it = JNull \/
  (exists b, value_component it = JBool b) ->
  visit_item (_time, _value) it =
  (push _time (time_component it), push _value NaN).
Proof.
  intros Hcase.
  assert (Hnan : parses_as_number (value_component it) = false).
  { destruct Hcase as [Hshort | [-> | [[] ->]]]; try reflexivity.
    unfold value_component, at_index.
    destruct (item_values it) as [| t [| v rest]]; cbn [length nth] in *;
      [reflexivity | reflexivity | exfalso; lia]. }
  unfold visit_item. fold (time_component it). fold (value_component it).
  now rewrite (parseFloat_unparseable _ Hnan).
Qed.

(** X12.  The loop reads the first two values of a point and nothing
    else: cutting every point of the payload down to its first two values
    leaves the result as it was. *)
Theorem reshape_reads_two_components (data : ApiData) :
  reshape (map (fun entry => (fst entry, map first_two (snd entry))) data) =
  reshape data.
Proof.
  rewrite !reshape_eq, (Object_entries_map_values (map first_two)), map_map.
  apply map_ext. intros [key points]. cbn [fst snd].
  rewrite !series_of_entry_eq, !map_map. f_equal.
  - apply map_ext. intros it. apply first_two_components.
  - apply map_ext. intros it.
    now rewrite (proj2 (first_two_components it)).
Qed.

(** X13.  For a payload whose keys are pairwise distinct, the series named
    [key] in the result is the one built from the payload's own entry for
    [key]; when the payload has no such entry, no series carries that
    name. *)
Theorem series_comes_from_its_entry (data : ApiData) (key : string)
    (series : chartData) :
  NoDup (map fst data) ->
  (In series (reshape data) /\ name series = key) <->
  (exists points,
     own_property data key = Some points /\
     series = {| name := key;
                 time := map time_component points;
                 value := map (fun it => parseFloat (value_component it)) points |}).
Proof.
  intros Hnd. rewrite reshape_eq. split.
  - intros [Hin Hname]. apply in_map_iff in Hin.
    destruct Hin as [[k points] [Hs Hentry]].
    apply (proj1 (Object_entries_In _ _)) in Hentry.
    rewrite series_of_entry_eq in Hs. subst series. cbn [name] in Hname. subst k.
    destruct (own_property data key) as [points' |] eqn:Hown.
    + exists points'. split; [reflexivity |].
      apply own_property_Some_In in Hown.
      now rewrite (NoDup_keys_same_value _ _ _ _ Hnd Hentry Hown).
    + exfalso. apply own_property_None in Hown. apply Hown.
      now apply (in_map fst) in Hentry.
  - intros [points [Hown ->]]. split; [| reflexivity].
    rewrite <- series_of_entry_eq. apply in_map.
    apply (proj2 (Object_entries_In _ _)). now apply own_property_Some_In.
Qed.

End Program.

Arguments AdStr {number} s.
Arguments AdNum {number} n.
Arguments JUndefined {number}.
Arguments JNull {number}.
Arguments JBool {number} b.
Arguments JNumber {number} n.
Arguments JString {number} s.
Arguments ItemArray {number} elements.
Arguments ItemObject {number} properties.
Arguments mkChartData {number} name time value.
Arguments name {number} c.
Arguments time {number} c.
Arguments value {number} c.

(** * The definitions at work, with numbers carried as text *)

Example resolve_number_input :
  getProvinceNameByAdcode TextNumber TextNumber_toString
    (AdNum (TNum "110000")) None = VString "北京市".
Proof. reflexivity. Qed.

Example resolve_unknown_code :
  getProvinceNameByAdcode TextNumber TextNumber_toString (AdStr "999999") None
    = VString "999999"
  /\ getProvinceNameByAdcode TextNumber TextNumber_toString (AdStr "999999")
       (Some (mkNameOptions None (Some "未知地区"))) = VString "未知地区".
Proof. split; reflexivity. Qed.

Example resolve_malformed_code :
  getProvinceNameByAdcode TextNumber TextNumber_toString (AdStr "abc") None
    = VString "abc"
  /\ getProvinceNameByAdcode TextNumber TextNumber_toString
       (AdNum (TNum "1234567")) None = VString "1234567"
  /\ getProvinceNameByAdcode TextNumber TextNumber_toString
       (AdStr "toString") None = VString "toString".
Proof. repeat split; reflexivity. Qed.

Example reshape_gdp :
  reshape TextNumber TextNumber_toString TNaN TextNumber_value
    [("GDP", [ItemArray [JString "2020"; JString "100.5"];
              ItemArray [JString "2021"; JString "110.2"]])]
  = [ {| name := "GDP";
         time := [JString "2020"; JString "2021"];
         value := [TNum "100.5"; TNum "110.2"] |} ].
Proof. reflexivity. Qed.

Example reshape_visits_index_keys_first :
  map name
    (reshape TextNumber TextNumber_toString TNaN TextNumber_value
       [("GDP", []); ("2021", []); ("7", [])])
  = ["7"; "2021"; "GDP"].
Proof. reflexivity. Qed.

Example decimal_prefix_samples :
  map decimal_prefix
      ["100.5"; "1."; ".5"; "-.5e-3x"; "5e+"; "12px"; "+Infinity!";
       "."; "e5"; "abc"; ""; "-"]
  = [Some "100.5"; Some "1."; Some ".5"; Some "-.5e-3"; Some "5"; Some "12";
     Some "+Infinity"; None; None; None; None; None].
Proof. reflexivity. Qed.

(** The code ["440000"] is a key of the table and goes to its name and
    back. *)
Lemma resolve_round_trip_witness :
  In "440000" (map fst ADCODE_TO_PROVINCE) /\
  exists provinceName,
    own_property ADCODE_TO_PROVINCE "440000" = Some provinceName /\
    getProvinceNameByAdcode TextNumber TextNumber_toString (AdStr "440000") None
      = VString provinceName /\
    getAdcodeByProvinceName provinceName = Some "440000".
Proof.
  assert (Hkey : In "440000" (map fst ADCODE_TO_PROVINCE))
    by (apply string_in_In; reflexivity).
  split; [exact Hkey |].
  apply (resolve_round_trip TextNumber TextNumber_toString (AdStr "440000") None);
    [exact Hkey | reflexivity | reflexivity].
Defined.

(** A series whose second point carries the value ["n/a"]. *)
Lemma unparseable_value_gives_NaN_witness :
  let points := [ItemArray [JString "2020"; JString "100.5"];
                 ItemArray [JString "2021"; JString "n/a"]] in
  exists series,
    In series (reshape TextNumber TextNumber_toString TNaN TextNumber_value
                 [("GDP", points)]) /\
    name series = "GDP" /\
    length (time series) = 2 /\
    length (value series) = 2 /\
    nth_error (value series) 1 = Some TNaN /\
    (forall j it, nth_error points j = Some it ->
       nth_error (time series) j = Some (time_component TextNumber it) /\
       nth_error (value series) j =
         Some (parseFloat TextNumber TextNumber_toString TNaN TextNumber_value
                 (value_component TextNumber it))).
Proof.
  intros points.
  apply (unparseable_value_gives_NaN TextNumber TextNumber_toString TNaN
           TextNumber_value [("GDP", points)] "GDP" points 1
           (ItemArray [JString "2021"; JString "n/a"])).
  - left. reflexivity.
  - reflexivity.
  - reflexivity.
Defined.

(** C8 as written fails where a time label arrives as a number: the
    point [[2020, "100.5"]] leaves the number 2020 in [time], not the string
    ["2020"] its conversion would give. *)
Lemma time_component_not_coerced :
  let label : scalar TextNumber := JNumber (TNum "2020") in
  map time
    (reshape TextNumber TextNumber_toString TNaN TextNumber_value
       [("GDP", [ItemArray [label; JString "100.5"]])])
  = [[label]]
  /\ ToString TextNumber TextNumber_toString label = "2020"
  /\ label <> JString (ToString TextNumber TextNumber_toString label).
Proof.
  intros label. repeat split. discriminate.
Qed.

(** ["广东省"] is found under ["440000"], which is valid and listed. *)
Lemma reverse_lookup_gives_valid_code_witness :
  getAdcodeByProvinceName "广东省" = Some "440000" /\
  isValidProvinceAdcode TextNumber TextNumber_toString (AdStr "440000") None = true /\
  In "440000" (getAllProvinceAdcodes None).
Proof.
  split; [reflexivity |].
  apply (reverse_lookup_gives_valid_code TextNumber TextNumber_toString
           "广东省" "440000").
  reflexivity.
Defined.

(** The string ["110000"] and the number 110000 resolve to one name and
    have one text. *)
Lemma resolver_injective_on_valid_witness :
  String_of TextNumber TextNumber_toString (AdStr "110000") =
  String_of TextNumber TextNumber_toString (AdNum (TNum "110000")).
Proof.
  apply (resolver_injective_on_valid TextNumber TextNumber_toString
           (AdStr "110000") (AdNum (TNum "110000")) None None);
    reflexivity.
Defined.

(** ["710000"] is listed by default, and goes to its name and back. *)
Lemma listed_codes_round_trip_witness :
  In "710000" (getAllProvinceAdcodes None) /\
  exists provinceName,
    own_property ADCODE_TO_PROVINCE "710000" = Some provinceName /\
    getProvinceNameByAdcode TextNumber TextNumber_toString (AdStr "710000") None
      = VString provinceName /\
    getAdcodeByProvinceName provinceName = Some "710000".
Proof.
  assert (Hlisted : In "710000" (getAllProvinceAdcodes None))
    by (apply string_in_In; reflexivity).
  split; [exact Hlisted |].
  apply (listed_codes_round_trip TextNumber TextNumber_toString "710000"
           None None); [reflexivity | exact Hlisted].
Defined.

(** Resolving ["440000"] twice with default options. *)
Lemma resolving_twice_witness :
  exists answer,
    getProvinceNameByAdcode TextNumber TextNumber_toString (AdStr "440000") None
      = VString answer /\
    getProvinceNameByAdcode TextNumber TextNumber_toString (AdStr answer) None
      = VString answer.
Proof.
  apply (resolving_twice TextNumber TextNumber_toString (AdStr "440000") None).
  reflexivity.
Defined.

(** The text ["999999"] is six digits and names no province. *)
Lemma reverse_lookup_of_code_is_null_witness :
  six_digit_pattern "999999" = true /\
  getAdcodeByProvinceName "999999" = None.
Proof.
  split; [reflexivity |].
  apply (reverse_lookup_of_code_is_null "999999"). reflexivity.
Defined.

(** A payload with the series names ["GDP"] and ["CPI"], given in that
    order. *)
Lemma reshape_keeps_payload_order_witness :
  let data := [("GDP", [ItemArray [JString "2020"; JString "100.5"]]);
               ("CPI", [ItemArray [JString "2020"; JString "2.5"]])] in
  (forall key, In key (map fst data) -> array_index key = None) /\
  reshape TextNumber TextNumber_toString TNaN TextNumber_value data =
  map (fun entry =>
         {| name := fst entry;
            time := map (time_component TextNumber) (snd entry);
            value := map (fun it =>
                            parseFloat TextNumber TextNumber_toString TNaN
                              TextNumber_value (value_component TextNumber it))
                         (snd entry) |})
      data.
Proof.
  intros data.
  assert (Hnone : forall key, In key (map fst data) -> array_index key = None)
    by (intros key [<- | [<- | []]]; reflexivity).
  split; [exact Hnone |].
  apply (reshape_keeps_payload_order TextNumber TextNumber_toString TNaN
           TextNumber_value data Hnone).
Defined.

(** The point [["2020"]] has no value component. *)
Lemma missing_value_gives_NaN_witness :
  visit_item TextNumber TextNumber_toString TNaN TextNumber_value
    ([], []) (ItemArray [JString "2020"])
  = ([JString "2020"], [TNaN]).
Proof.
  apply (missing_value_gives_NaN TextNumber TextNumber_toString TNaN
           TextNumber_value [] [] (ItemArray [JString "2020"])).
  left. cbn. lia.
Defined.

(** In a payload with the one key ["GDP"], the series named ["GDP"] is the
    one built from its entry. *)
Lemma series_comes_from_its_entry_witness :
  let points := [ItemArray [JString "2020"; JString "100.5"]] in
  let series := {| name := "GDP";
                   time := [JString "2020"];
                   value := [TNum "100.5"] |} in
  NoDup (map fst [("GDP", points)]) /\
  (In series (reshape TextNumber TextNumber_toString TNaN TextNumber_value
                [("GDP", points)]) /\ name series = "GDP" <->
   exists points',
     own_property [("GDP", points)] "GDP" = Some points' /\
     series =
     {| name := "GDP";
        time := map (time_component TextNumber) points';
        value := map (fun it =>
                        parseFloat TextNumber TextNumber_toString TNaN
                          TextNumber_value (value_component TextNumber it))
                     points' |}).
Proof.
  intros points series.
  assert (Hnd : NoDup (map fst [("GDP", points)]))
    by (constructor; [intros [] | constructor]).
  split; [exact Hnd |].
  apply (series_comes_from_its_entry TextNumber TextNumber_toString TNaN
           TextNumber_value [("GDP", points)] "GDP" series Hnd).
Defined.
